(** * Frame codec of the tunnel protocol (package v1)

    A shallow embedding of the wire codec: the error model (errors.go), the
    protocol constants (constants.go) and the frame codec (frame.go, the
    revision with the magic marker and the stream ID), followed by the
    properties of [Encode], [Decode] and the frame predicates.

    Conventions.
    - A [uint8] is a [Byte.byte]; a [uint32] and a Go [int] are numbers in
      [N], and every narrowing conversion writes its wrap-around out
      ([uint32], [uint8]).
    - A [[]byte] is a [list byte]; a nil and an empty slice are both [[]].
    - A Go [error] is an [option error]: [None] is [nil].
    - The byte sink is an interface ([Writer]); the byte source is an
      in-memory reader over the bytes still unread. *)

From Stdlib Require Import Arith NArith List String Bool Lia.
From Stdlib Require Import Init.Byte Strings.Byte.
From Stdlib Require Import Ascii DecimalString DecimalN.
Import ListNotations.

Local Open Scope N_scope.

(** ** Machine integers and the big-endian byte order *)

Module GoInt.

(** [uint8(x)]: the low eight bits of [x]. *)
Definition uint8 (x : N) : byte :=
  let low := N.land x 255 in
  match Byte.of_N low with
  | Some b => b
  | None => x00
  end.

(** [uint32(x)]: the low 32 bits of [x], as Go's integer conversion keeps
    them when the operand does not fit. *)
Definition uint32 (x : N) : N := x mod 2 ^ 32.

(** [a & b] on two [uint8]. *)
Definition and8 (a b : byte) : byte :=
  uint8 (N.land (Byte.to_N a) (Byte.to_N b)).

(** [binary.BigEndian.PutUint32]: the four bytes of [v], most significant
    first. *)
Definition PutUint32 (v : N) : list byte :=
  [ uint8 (N.shiftr v 24); uint8 (N.shiftr v 16);
    uint8 (N.shiftr v 8); uint8 v ].

(** [binary.BigEndian.Uint32] on the four bytes [b0 b1 b2 b3]. *)
Definition Uint32 (b0 b1 b2 b3 : byte) : N :=
  N.lor (N.lor (N.lor (Byte.to_N b3) (N.shiftl (Byte.to_N b2) 8))
               (N.shiftl (Byte.to_N b1) 16))
        (N.shiftl (Byte.to_N b0) 24).

End GoInt.
Import GoInt.

(** ** Error model (errors.go) *)

Definition ErrorCode := N.

Definition ErrCodeUnknown : ErrorCode := 0.
Definition ErrCodeInvalidVersion : ErrorCode := 1001.
Definition ErrCodeFrameTooLarge : ErrorCode := 1002.
Definition ErrCodeBadFrame : ErrorCode := 1003.
Definition ErrCodeBadPayload : ErrorCode := 1004.
Definition ErrCodeUnauthorized : ErrorCode := 2001.
Definition ErrCodeAuthExpired : ErrorCode := 2002.
Definition ErrCodeStreamNotFound : ErrorCode := 3001.
Definition ErrCodeStreamClosed : ErrorCode := 3002.

Record ProtocolError : Type := mkProtocolError {
  Code : ErrorCode;
  Msg : string
}.

Definition NewError (code : ErrorCode) (msg : string) : ProtocolError :=
  {| Code := code; Msg := msg |}.
Arguments NewError code msg%_string.

(** The values of Go's [error] interface that reach the codec: the two
    end-of-input conditions of package io, an error reported by the
    caller's sink, and the codec's own [ProtocolError]. *)
Inductive error : Type :=
| EOF
| ErrUnexpectedEOF
| SinkError (msg : string)
| ProtoError (e : ProtocolError).
Arguments SinkError msg%_string.

(** [IsProtocolError]: the type assertion of [err] to a pointer to
    [ProtocolError], with the nil error answered first. *)
Definition IsProtocolError (err : option error) : option ProtocolError * bool :=
  match err with
  | None => (None, false)
  | Some (ProtoError pe) => (Some pe, true)
  | Some _ => (None, false)
  end.

(** The outcome of a call that returns [(value, error)]; [Panic] stands for
    a run-time panic of an index out of range. *)
Inductive result (A : Type) : Type :=
| Ok (a : A)
| Err (e : error)
| Panic.
Arguments Ok {A} a.
Arguments Err {A} e.
Arguments Panic {A}.

(** ** Byte sinks and byte sources *)

(** [io.Writer]: [Write w p] is the sink after the call and the error it
    reports; the byte count is dropped, as every caller in the codec drops
    it. *)
Class Writer (W : Type) : Type :=
  Write : W -> list byte -> W * option error.

(** [bytes.Buffer] as a sink: it appends and never fails. *)
Definition Buffer := list byte.

#[export] Instance Buffer_Writer : Writer Buffer :=
  fun b p => (b ++ p, None).

(** A sink that accepts [room] more bytes and then fails, keeping what
    fitted: a connection closed by the peer in the middle of a frame. *)
Record Pipe : Type := mkPipe {
  sent : list byte;
  room : nat
}.

#[export] Instance Pipe_Writer : Writer Pipe :=
  fun c p =>
    if Nat.leb (List.length p) (room c)
    then ({| sent := sent c ++ p; room := room c - List.length p |}, None)
    else ({| sent := sent c ++ firstn (room c) p; room := 0 |},
          Some (SinkError "write on closed pipe")).

(** Sequencing of writes: stop at the first error. *)
Definition andThen {W : Type} (r : W * option error)
    (k : W -> W * option error) : W * option error :=
  match r with
  | (w, None) => k w
  | (w, Some e) => (w, Some e)
  end.

Notation "'do' w <- r ; k" := (andThen r (fun w => k))
  (at level 10, w name, r at level 200, k at level 200).

(** [binary.Write(w, binary.BigEndian, v)] for a [uint32]: one [Write] of
    the four bytes. *)
Definition binary_Write {W : Type} `{Writer W} (w : W) (v : N)
    : W * option error :=
  Write w (PutUint32 v).

(** An in-memory byte source ([bytes.Reader], or a [bytes.Buffer] being
    drained): the bytes not read yet. *)
Definition Reader := list byte.

(** [io.ReadFull(r, buf)] with [len(buf) = n] on an in-memory source: the
    next [n] bytes; [io.EOF] when [n > 0] and nothing is left;
    [io.ErrUnexpectedEOF] when something but fewer than [n] bytes are left
    (they are consumed). *)
Definition ReadFull (r : Reader) (n : N) : Reader * result (list byte) :=
  if N.of_nat (List.length r) <? n then
    ([], Err (match r with [] => EOF | _ :: _ => ErrUnexpectedEOF end))
  else
    (skipn (N.to_nat n) r, Ok (firstn (N.to_nat n) r)).

(** [binary.Read(r, binary.BigEndian, &v)] for a [uint32]: [io.ReadFull] of
    four bytes, then [Uint32]. *)
Definition binary_Read (r : Reader) : Reader * result N :=
  match ReadFull r 4 with
  | (r', Ok [b0; b1; b2; b3]) => (r', Ok (Uint32 b0 b1 b2 b3))
  | (r', Ok _) => (r', Panic)
  | (r', Err e) => (r', Err e)
  | (r', Panic) => (r', Panic)
  end.

(** ** Protocol constants (constants.go) *)

Definition Version : byte := x01.

Definition Magic0 : byte := x52.
Definition Magic1 : byte := x54.

Definition FrameAuth : byte := x01.
Definition FrameOpenStream : byte := x02.
Definition FrameData : byte := x03.
Definition FrameClose : byte := x04.
Definition FrameHeartbeat : byte := x05.

Definition HeaderSize : N := 9.
Definition MaxFrameSize : N := 16 * 1024 * 1024.

Definition StreamIDControl : N := uint32 0.

Definition FlagNone : byte := uint8 0.
Definition FlagEndStream : byte := uint8 (N.shiftl 1 0).
Definition FlagAck : byte := uint8 (N.shiftl 1 1).
Definition FlagError : byte := uint8 (N.shiftl 1 2).

(** ** Frames and the codec (frame.go) *)

Record Frame : Type := mkFrame {
  fVersion : byte;
  fType : byte;
  fFlags : byte;
  fStreamID : N;
  fPayload : list byte
}.

(** [len(p)] as a Go [int]. *)
Definition len (p : list byte) : N := N.of_nat (List.length p).

Definition protoErr (code : ErrorCode) (msg : string) : error :=
  ProtoError (NewError code msg).
Arguments protoErr code msg%_string.

(** [Encode]. The sum [HeaderSize + len(f.Payload)] is a Go [int]; its
    conversion to [uint32] keeps the low 32 bits, which are the low 32 bits
    of the exact sum whether [int] has 32 or 64 bits. The size check is
    made on the converted value, as in the source. *)
Definition Encode {W : Type} `{Writer W} (w : W) (f : Frame)
    : W * option error :=
  if negb (Byte.eqb (fVersion f) Version) then
    (w, Some (protoErr ErrCodeInvalidVersion "invalid protocol version"))
  else
    let length := uint32 (HeaderSize + len (fPayload f)) in
    if MaxFrameSize <? length then
      (w, Some (protoErr ErrCodeFrameTooLarge "frame too large"))
    else
      do w1 <- binary_Write w length;
      do w2 <- Write w1 [Magic0; Magic1];
      do w3 <- Write w2 [fVersion f; fType f; fFlags f];
      do w4 <- binary_Write w3 (fStreamID f);
      if 0 <? len (fPayload f) then Write w4 (fPayload f)
      else (w4, None).

Definition IsValidFrameType (frameType : byte) : bool :=
  Byte.eqb frameType FrameAuth
  || Byte.eqb frameType FrameOpenStream
  || Byte.eqb frameType FrameData
  || Byte.eqb frameType FrameClose
  || Byte.eqb frameType FrameHeartbeat.

(** [Decode]. The buffer [buf] holds the [length] bytes that follow the
    length field; [buf[0]] to [buf[8]] and [buf[HeaderSize:]] are taken by
    pattern matching, and a buffer too short for them is a panic. *)
Definition Decode (r : Reader) : Reader * result Frame :=
  match binary_Read r with
  | (r1, Err e) => (r1, Err e)
  | (r1, Panic) => (r1, Panic)
  | (r1, Ok length) =>
      if (length <? HeaderSize) || (MaxFrameSize <? length) then
        (r1, Err (protoErr ErrCodeBadFrame "invalid frame size"))
      else
        match ReadFull r1 length with
        | (r2, Err e) => (r2, Err e)
        | (r2, Panic) => (r2, Panic)
        | (r2, Ok buf) =>
            (r2,
             match buf with
             | m0 :: m1 :: v :: t :: fl :: s0 :: s1 :: s2 :: s3 :: payload =>
                 if negb (Byte.eqb m0 Magic0) || negb (Byte.eqb m1 Magic1)
                 then Err (protoErr ErrCodeBadFrame "invalid magic marker")
                 else if negb (Byte.eqb v Version) then
                   Err (protoErr ErrCodeInvalidVersion
                          "invalid protocol version")
                 else
                   let frameType := t in
                   if negb (IsValidFrameType frameType) then
                     Err (protoErr ErrCodeBadFrame "invalid frame type")
                   else
                     let streamID := Uint32 s0 s1 s2 s3 in
                     Ok {| fVersion := v; fType := frameType; fFlags := fl;
                           fStreamID := streamID; fPayload := payload |}
             | _ => Panic
             end)
        end
  end.

Definition IsControlFrame (f : Frame) : bool :=
  fStreamID f =? StreamIDControl.

Definition IsDataStream (f : Frame) : bool :=
  StreamIDControl <? fStreamID f.

Definition HasFlag (f : Frame) (flag : byte) : bool :=
  negb (Byte.eqb (and8 (fFlags f) flag) x00).

Definition IsEndStream (f : Frame) : bool := HasFlag f FlagEndStream.
Definition IsError (f : Frame) : bool := HasFlag f FlagError.
Definition IsAck (f : Frame) : bool := HasFlag f FlagAck.

(** The part of [Decode] that follows the read of the body: the checks on
    the buffer and the construction of the frame. *)
Definition parseBody (buf : list byte) : result Frame :=
  match buf with
  | m0 :: m1 :: v :: t :: fl :: s0 :: s1 :: s2 :: s3 :: payload =>
      if negb (Byte.eqb m0 Magic0) || negb (Byte.eqb m1 Magic1) then
        Err (protoErr ErrCodeBadFrame "invalid magic marker")
      else if negb (Byte.eqb v Version) then
        Err (protoErr ErrCodeInvalidVersion "invalid protocol version")
      else if negb (IsValidFrameType t) then
        Err (protoErr ErrCodeBadFrame "invalid frame type")
      else
        Ok {| fVersion := v; fType := t; fFlags := fl;
              fStreamID := Uint32 s0 s1 s2 s3; fPayload := payload |}
  | _ => Panic
  end.

(** The bytes of a frame on the wire when the length field holds [n]. *)
Definition wire (n : N) (f : Frame) : list byte :=
  PutUint32 n ++ [Magic0; Magic1] ++ [fVersion f; fType f; fFlags f]
    ++ PutUint32 (fStreamID f) ++ fPayload f.

(** A value that is a [uint32]. *)
Definition is_uint32 (x : N) : Prop := x < 2 ^ 32.

(** The end-of-input conditions of the byte source. *)
Definition end_of_input (e : error) : bool :=
  match e with
  | EOF | ErrUnexpectedEOF => true
  | _ => false
  end.

(** The length that an input declares in its first four bytes. *)
Definition declared (bs : list byte) : option N :=
  match bs with
  | b0 :: b1 :: b2 :: b3 :: _ => Some (Uint32 b0 b1 b2 b3)
  | _ => None
  end.

(** The error code of a failed call, when the error is a
    [ProtocolError]. *)
Definition codeOf {A : Type} (r : result A) : option ErrorCode :=
  match r with
  | Err (ProtoError pe) => Some (Code pe)
  | _ => None
  end.

(** The five frame types of the protocol. *)
Definition frameTypes : list byte :=
  [FrameAuth; FrameOpenStream; FrameData; FrameClose; FrameHeartbeat].

(** A frame the codec accepts: the supported version, one of the five
    types, a stream ID that is a [uint32], and a payload that fits with
    the header in [MaxFrameSize]. *)
Record valid (f : Frame) : Prop := mkValid {
  valid_version : fVersion f = Version;
  valid_type : In (fType f) frameTypes;
  valid_stream : is_uint32 (fStreamID f);
  valid_size : len (fPayload f) <= MaxFrameSize - HeaderSize
}.

(** [bs] with the byte at index [i] replaced by [b]. *)
Fixpoint setByte (bs : list byte) (i : nat) (b : byte) : list byte :=
  match bs, i with
  | [], _ => []
  | _ :: tl, O => b :: tl
  | x :: tl, S j => x :: setByte tl j b
  end.

(** The scenarios of the test suite. *)
Definition payload_of (s : string) : list byte := list_byte_of_string s.
Arguments payload_of s%_string.

Definition dataFrame : Frame :=
  {| fVersion := Version; fType := FrameData; fFlags := FlagEndStream;
     fStreamID := 1; fPayload := payload_of "Response body" |}.

Definition heartbeat : Frame :=
  {| fVersion := Version; fType := FrameHeartbeat; fFlags := FlagNone;
     fStreamID := StreamIDControl; fPayload := [] |}.

Definition authFrame : Frame :=
  {| fVersion := Version; fType := FrameAuth; fFlags := FlagNone;
     fStreamID := StreamIDControl; fPayload := payload_of "test" |}.

Definition badVersionFrame : Frame :=
  {| fVersion := xff; fType := FrameAuth; fFlags := FlagNone;
     fStreamID := StreamIDControl; fPayload := payload_of "test" |}.

(** A frame one byte over the limit. *)
Definition oversizeFrame : Frame :=
  {| fVersion := Version; fType := FrameData; fFlags := FlagNone;
     fStreamID := 1;
     fPayload := repeat x00 (N.to_nat (MaxFrameSize - HeaderSize + 1)) |}.

(** A frame whose payload has 2^32 - 9 bytes, so that the header and the
    payload together have 2^32 bytes. *)
Definition wrapFrame : Frame :=
  {| fVersion := Version; fType := FrameData; fFlags := FlagNone;
     fStreamID := 1; fPayload := repeat x00 (N.to_nat 4294967287) |}.

(** An input that declares one byte more than [MaxFrameSize]. *)
Definition oversizeInput : list byte := [x01; x00; x00; x01].

(** An input that declares five bytes and holds one of them. *)
Definition shortDeclared : list byte := [x00; x00; x00; x05; x52].

(** The first test input of TestFrameDecodeIncomplete: 32 bytes declared,
    9 present. *)
Definition incomplete : list byte :=
  [x00; x00; x00; x20; Magic0; Magic1; Version; FrameAuth; FlagNone;
   x00; x00; x00; x00].

(** ** The text of an error (errors.go) *)

(** The verb [%d] of [fmt.Sprintf] on an unsigned number: its decimal
    digits. *)
Definition decimal (n : N) : string :=
  NilEmpty.string_of_uint (N.to_uint n).

(** The method [Error] of [ProtocolError]. *)
Definition Error (e : ProtocolError) : string :=
  if String.eqb (Msg e) "" then
    String.append "protocol error ("
      (String.append (decimal (Code e)) ")")
  else
    String.append "protocol error ("
      (String.append (decimal (Code e))
         (String.append "): " (Msg e))).

(** ** Flag sets *)

(** [a | b] on two [uint8], as the callers build flag sets
    ([FlagEndStream | FlagAck]). *)
Definition or8 (a b : byte) : byte :=
  uint8 (N.lor (Byte.to_N a) (Byte.to_N b)).

(** ** The errors [Decode] can return *)


(** ** The earlier revision of the codec

    The revision of frame.go without the magic marker and the stream ID:
    the length field counts the three header bytes (version, type, flags)
    and the payload. It shares [Version] and [MaxFrameSize] with the
    current revision. *)

Module Legacy.

Record Frame : Type := mkFrame {
  fVersion : byte;
  fType : byte;
  fFlags : byte;
  fPayload : list byte
}.

Definition Encode {W : Type} `{Writer W} (w : W) (f : Frame)
    : W * option error :=
  if negb (Byte.eqb (fVersion f) Version) then
    (w, Some (protoErr ErrCodeInvalidVersion "invalid protocol version"))
  else
    let length := uint32 (3 + len (fPayload f)) in
    if MaxFrameSize <? length then
      (w, Some (protoErr ErrCodeFrameTooLarge "frame too large"))
    else
      do w1 <- binary_Write w length;
      do w2 <- Write w1 [fVersion f; fType f; fFlags f];
      if 0 <? len (fPayload f) then Write w2 (fPayload f)
      else (w2, None).

Definition Decode (r : Reader) : Reader * result Frame :=
  match binary_Read r with
  | (r1, Err e) => (r1, Err e)
  | (r1, Panic) => (r1, Panic)
  | (r1, Ok length) =>
      if (length <? 3) || (MaxFrameSize <? length) then
        (r1, Err (protoErr ErrCodeFrameTooLarge "frame too large"))
      else
        match ReadFull r1 length with
        | (r2, Err e) => (r2, Err e)
        | (r2, Panic) => (r2, Panic)
        | (r2, Ok buf) =>
            (r2,
             match buf with
             | v :: t :: fl :: payload =>
                 if negb (Byte.eqb v Version) then
                   Err (protoErr ErrCodeInvalidVersion
                          "invalid protocol version")
                 else
                   Ok {| fVersion := v; fType := t; fFlags := fl;
                         fPayload := payload |}
             | _ => Panic
             end)
        end
  end.

(** The bytes of a frame of the earlier revision on the wire. *)
Definition wire (f : Frame) : list byte :=
  PutUint32 (3 + len (fPayload f))
    ++ [fVersion f; fType f; fFlags f] ++ fPayload f.

(** A frame the earlier revision accepts: the supported version and a
    payload that fits with the three header bytes in [MaxFrameSize]; the
    type byte is not checked. *)
Record valid (f : Frame) : Prop := mkValid {
  valid_version : fVersion f = Version;
  valid_size : len (fPayload f) <= MaxFrameSize - 3
}.

Definition dataFrame : Frame :=
  {| fVersion := Version; fType := FrameData; fFlags := x00;
     fPayload := payload_of "Response body" |}.

End Legacy.

(** The wire image of [authFrame] with the version byte (offset 6) set to
    0xFF (TestFrameVersionValidation). *)
Definition badVersionInput : list byte :=
  setByte (wire 13 authFrame) 6 xff.

(** ** The codec on the scenarios of the test suite *)

Example dataFrame_wire :
  Encode ([] : Buffer) dataFrame = (wire 22 dataFrame, None).
Proof. vm_compute. reflexivity. Qed.

Example dataFrame_roundtrip :
  Decode (fst (Encode ([] : Buffer) dataFrame)) = ([], Ok dataFrame).
Proof. vm_compute. reflexivity. Qed.

Example heartbeat_roundtrip :
  Decode (fst (Encode ([] : Buffer) heartbeat)) = ([], Ok heartbeat)
  /\ IsControlFrame heartbeat = true.
Proof. vm_compute. split; reflexivity. Qed.

(** A sink that fails in the middle of a frame keeps the bytes written
    before the failure: there is no rollback. *)
Example pipe_partial_write :
  Encode {| sent := []; room := 6 |} authFrame
  = ({| sent := [x00; x00; x00; x0d; Magic0; Magic1]; room := 0 |},
     Some (SinkError "write on closed pipe")).
Proof. vm_compute. reflexivity. Qed.

(** ** Facts about the machine integers *)

Module GoIntFacts.

Lemma uint8_to_N (x : N) : Byte.to_N (uint8 x) = x mod 2 ^ 8.
Proof.
  unfold uint8. cbv zeta.
  change 255 with (N.ones 8). rewrite N.land_ones.
  pose proof (N.mod_upper_bound x (2 ^ 8)) as B.
  destruct (Byte.of_N (x mod 2 ^ 8)) as [b|] eqn:E.
  - now apply Byte.to_of_N.
  - apply Byte.of_N_None_iff in E.
    change (2 ^ 8) with 256 in *. lia.
Qed.

Lemma uint8_of_byte (b : byte) : uint8 (Byte.to_N b) = b.
Proof.
  unfold uint8. cbv zeta.
  change 255 with (N.ones 8). rewrite N.land_ones.
  rewrite N.mod_small.
  - now rewrite Byte.of_to_N.
  - pose proof (Byte.to_N_bounded b). change (2 ^ 8) with 256. lia.
Qed.

Lemma byte_testbit_high (b : byte) (i : N) :
  8 <= i -> N.testbit (Byte.to_N b) i = false.
Proof.
  intros Hi.
  rewrite <- (uint8_of_byte b), uint8_to_N.
  now apply N.mod_pow2_bits_high.
Qed.

(** Bit [i] of the byte of [v] that starts at bit [k], put back at bit
    [k]. *)
Lemma slice_bit (v k i : N) :
  N.testbit (N.shiftl (N.shiftr v k mod 2 ^ 8) k) i
  = (k <=? i) && (i <? k + 8) && N.testbit v i.
Proof.
  destruct (N.leb_spec k i) as [Hk|Hk].
  - rewrite N.shiftl_spec_high' by exact Hk.
    destruct (N.ltb_spec i (k + 8)) as [Hi|Hi]; rewrite andb_true_l.
    + rewrite (N.mod_pow2_bits_low (N.shiftr v k) 8 (i - k)) by lia.
      rewrite N.shiftr_spec'. f_equal. lia.
    + rewrite andb_false_l. apply N.mod_pow2_bits_high. lia.
  - now rewrite N.shiftl_spec_low by exact Hk.
Qed.

(** The four bytes written for a [uint32] read back as the same number. *)
Lemma Uint32_PutUint32 (v : N) :
  v < 2 ^ 32 ->
  Uint32 (uint8 (N.shiftr v 24)) (uint8 (N.shiftr v 16))
         (uint8 (N.shiftr v 8)) (uint8 v) = v.
Proof.
  intros Hv. unfold Uint32. rewrite !uint8_to_N.
  rewrite <- (N.shiftl_0_r (v mod 2 ^ 8)).
  rewrite <- (N.shiftr_0_r v) at 1.
  apply N.bits_inj. intros i.
  rewrite !N.lor_spec, !slice_bit.
  destruct (N.testbit v i) eqn:Hbit.
  - assert (Hi : i < 32).
    { destruct (N.lt_ge_cases i 32) as [Hi|Hi]; [exact Hi|].
      rewrite <- (N.mod_small v (2 ^ 32)) in Hbit by exact Hv.
      rewrite N.mod_pow2_bits_high in Hbit by exact Hi. discriminate. }
    rewrite !andb_true_r.
    repeat match goal with
           | |- context [?a <=? ?b] => destruct (N.leb_spec a b)
           | |- context [?a <? ?b] => destruct (N.ltb_spec a b)
           end; simpl; try reflexivity; lia.
  - now rewrite !andb_false_r.
Qed.

(** Whatever four bytes are read, the number they denote is a [uint32]. *)
Lemma Uint32_bound (b0 b1 b2 b3 : byte) : Uint32 b0 b1 b2 b3 < 2 ^ 32.
Proof.
  destruct (N.eq_dec (Uint32 b0 b1 b2 b3) 0) as [E|E];
    [rewrite E; reflexivity|].
  apply N.log2_lt_pow2; [lia|].
  unfold Uint32 in *.
  rewrite !N.log2_lor.
  pose proof (Byte.to_N_bounded b0). pose proof (Byte.to_N_bounded b1).
  pose proof (Byte.to_N_bounded b2). pose proof (Byte.to_N_bounded b3).
  assert (L : forall x, x <= 255 -> N.log2 x < 8).
  { intros x Hx. destruct (N.eq_dec x 0) as [->|Hx0]; [reflexivity|].
    apply N.log2_lt_pow2; [lia|]. change (2 ^ 8) with 256. lia. }
  assert (S : forall x k, x <= 255 -> N.log2 (N.shiftl x k) < 8 + k).
  { intros x k Hx. destruct (N.eq_dec x 0) as [->|Hx0].
    - rewrite N.shiftl_0_l. change (N.log2 0) with 0. lia.
    - rewrite N.log2_shiftl by exact Hx0. specialize (L x Hx). lia. }
  pose proof (L _ H2). pose proof (S _ 8 H1). pose proof (S _ 16 H0).
  pose proof (S _ 24 H). lia.
Qed.

End GoIntFacts.
Import GoIntFacts.

(** ** Facts about the byte source *)

Lemma len_app (p q : list byte) : len (p ++ q) = len p + len q.
Proof. unfold len. rewrite length_app. lia. Qed.

Lemma len_nil_inv (p : list byte) : len p = 0 -> p = [].
Proof. destruct p; [reflexivity|]. unfold len. simpl. lia. Qed.

(** When the next [n] bytes are there, [ReadFull] returns them and leaves
    the rest unread. *)
Lemma ReadFull_exact (body rest : list byte) (n : N) :
  len body = n -> ReadFull (body ++ rest) n = (rest, Ok body).
Proof.
  intros <-. unfold ReadFull.
  destruct (N.ltb_spec (N.of_nat (List.length (body ++ rest))) (len body))
    as [H|_].
  { fold (len (body ++ rest)) in H. rewrite len_app in H. lia. }
  unfold len. rewrite Nat2N.id.
  rewrite firstn_app, skipn_app, firstn_all, skipn_all, Nat.sub_diag.
  simpl. now rewrite app_nil_r.
Qed.

(** When fewer than [n] bytes are left, [ReadFull] fails with one of the two
    end-of-input conditions. *)
Lemma ReadFull_short (r : Reader) (n : N) :
  len r < n ->
  exists e, ReadFull r n = ([], Err e) /\ end_of_input e = true.
Proof.
  intros H. unfold ReadFull. fold (len r).
  destruct (N.ltb_spec (len r) n) as [_|H']; [|lia].
  destruct r; eexists; split; reflexivity.
Qed.

Lemma binary_Read_cons4 (b0 b1 b2 b3 : byte) (rest : list byte) :
  binary_Read (b0 :: b1 :: b2 :: b3 :: rest) = (rest, Ok (Uint32 b0 b1 b2 b3)).
Proof.
  unfold binary_Read.
  change (b0 :: b1 :: b2 :: b3 :: rest) with ([b0; b1; b2; b3] ++ rest).
  now rewrite (ReadFull_exact [b0; b1; b2; b3] rest 4 eq_refl).
Qed.

Lemma binary_Read_short (r : Reader) :
  len r < 4 ->
  exists e, binary_Read r = ([], Err e) /\ end_of_input e = true.
Proof.
  intros H. unfold binary_Read.
  destruct (ReadFull_short r 4 H) as (e & -> & He). now exists e.
Qed.

(** [Decode] once the four bytes of the length field are there. *)
Lemma Decode_cons4 (b0 b1 b2 b3 : byte) (rest : list byte) :
  Decode (b0 :: b1 :: b2 :: b3 :: rest) =
  let length := Uint32 b0 b1 b2 b3 in
  if (length <? HeaderSize) || (MaxFrameSize <? length) then
    (rest, Err (protoErr ErrCodeBadFrame "invalid frame size"))
  else
    match ReadFull rest length with
    | (r2, Err e) => (r2, Err e)
    | (r2, Panic) => (r2, Panic)
    | (r2, Ok buf) => (r2, parseBody buf)
    end.
Proof. unfold Decode. rewrite binary_Read_cons4. reflexivity. Qed.

Lemma size_check_passes (n : N) :
  HeaderSize <= n <= MaxFrameSize ->
  (n <? HeaderSize) || (MaxFrameSize <? n) = false.
Proof.
  intros [H1 H2].
  destruct (N.ltb_spec n HeaderSize), (N.ltb_spec MaxFrameSize n);
    try reflexivity; lia.
Qed.

Lemma size_check_fails (n : N) :
  n < HeaderSize \/ MaxFrameSize < n ->
  (n <? HeaderSize) || (MaxFrameSize <? n) = true.
Proof.
  intros H.
  destruct (N.ltb_spec n HeaderSize), (N.ltb_spec MaxFrameSize n);
    try reflexivity; lia.
Qed.

(** A complete frame: [Decode] hands the [length] bytes that follow the
    length field to the header checks and leaves what follows them unread. *)
Lemma Decode_complete (b0 b1 b2 b3 : byte) (body rest : list byte) :
  HeaderSize <= Uint32 b0 b1 b2 b3 <= MaxFrameSize ->
  len body = Uint32 b0 b1 b2 b3 ->
  Decode (b0 :: b1 :: b2 :: b3 :: body ++ rest) = (rest, parseBody body).
Proof.
  intros Hn Hlen. rewrite Decode_cons4. cbv zeta.
  rewrite (size_check_passes _ Hn).
  now rewrite (ReadFull_exact body rest _ Hlen).
Qed.

(** A list of at least nine bytes has the shape the header checks expect. *)
Lemma body_shape (body : list byte) :
  HeaderSize <= len body ->
  exists m0 m1 v t fl s0 s1 s2 s3 payload,
    body = m0 :: m1 :: v :: t :: fl :: s0 :: s1 :: s2 :: s3 :: payload.
Proof.
  unfold HeaderSize, len. intros H.
  do 9 (destruct body as [|? body]; [simpl in H; lia|]).
  repeat eexists.
Qed.

(** [Decode] indexes only inside the buffer it has filled. *)
Lemma Decode_never_panics (r : Reader) : snd (Decode r) <> Panic.
Proof.
  destruct r as [|b0 [|b1 [|b2 [|b3 rest]]]]; try (vm_compute; discriminate).
  rewrite Decode_cons4. cbv zeta.
  destruct ((Uint32 b0 b1 b2 b3 <? HeaderSize)
            || (MaxFrameSize <? Uint32 b0 b1 b2 b3)) eqn:Hsz;
    [simpl; discriminate|].
  apply orb_false_elim in Hsz as [Hlo _]. apply N.ltb_ge in Hlo.
  unfold ReadFull. fold (len rest).
  destruct (N.ltb_spec (len rest) (Uint32 b0 b1 b2 b3)) as [|Hlen];
    [simpl; discriminate|].
  cbn [snd].
  destruct (body_shape (firstn (N.to_nat (Uint32 b0 b1 b2 b3)) rest))
    as (m0 & m1 & v & t & fl & s0 & s1 & s2 & s3 & payload & ->).
  { unfold len in *. rewrite length_firstn. lia. }
  unfold parseBody.
  repeat match goal with
         | |- context [if ?c then _ else _] => destruct c
         end; discriminate.
Qed.

(** ** Encode *)

Section AnySink.

Context {W : Type} `{Writer W}.

(** C4. A frame whose version is not the supported one is refused with
    InvalidVersion, whatever its other fields are, and the sink is
    returned as it was given: no [Write] has been issued. *)
Theorem Encode_rejects_version (w : W) (f : Frame) :
  fVersion f <> Version ->
  Encode w f
  = (w, Some (protoErr ErrCodeInvalidVersion "invalid protocol version")).
Proof.
  intros Hv. unfold Encode.
  destruct (Byte.eqb (fVersion f) Version) eqn:E; [|reflexivity].
  now apply Byte.byte_dec_bl in E.
Qed.

(** X1. As long as the sum of the header size and the payload length is
    itself a [uint32], a frame over [MaxFrameSize] is refused with
    FrameTooLarge and the sink is left as it was. *)
Lemma Encode_too_large (w : W) (f : Frame) :
  fVersion f = Version ->
  MaxFrameSize < HeaderSize + len (fPayload f) ->
  HeaderSize + len (fPayload f) < 2 ^ 32 ->
  Encode w f = (w, Some (protoErr ErrCodeFrameTooLarge "frame too large")).
Proof.
  intros Hv Hbig Hfit. unfold Encode.
  rewrite Hv. change (negb (Byte.eqb Version Version)) with false.
  cbv iota zeta. unfold uint32. rewrite N.mod_small by exact Hfit.
  destruct (N.ltb_spec MaxFrameSize (HeaderSize + len (fPayload f)));
    [reflexivity|lia].
Qed.

End AnySink.

(** TestFrameVersionValidation: version 0xFF. *)
Lemma Encode_rejects_version_witness :
  fVersion badVersionFrame <> Version
  /\ Encode ([] : Buffer) badVersionFrame
     = ([], Some (protoErr ErrCodeInvalidVersion "invalid protocol version")).
Proof.
  split; [discriminate|].
  apply (Encode_rejects_version ([] : Buffer) badVersionFrame). discriminate.
Defined.

(** The same on a sink that would fail: it is not touched. *)
Example Encode_bad_version_pipe :
  Encode {| sent := []; room := 0 |} badVersionFrame
  = ({| sent := []; room := 0 |},
     Some (protoErr ErrCodeInvalidVersion "invalid protocol version")).
Proof. reflexivity. Qed.

(** The length that [Encode] puts in the length field. *)
Lemma Encode_Buffer (b : Buffer) (f : Frame) :
  fVersion f = Version ->
  uint32 (HeaderSize + len (fPayload f)) <= MaxFrameSize ->
  Encode b f
  = (b ++ wire (uint32 (HeaderSize + len (fPayload f))) f, None).
Proof.
  intros Hv Hsz. unfold Encode.
  rewrite Hv. change (negb (Byte.eqb Version Version)) with false.
  cbv iota zeta.
  destruct (N.ltb_spec MaxFrameSize (uint32 (HeaderSize + len (fPayload f))))
    as [Hgt|_]; [lia|].
  unfold binary_Write, Write, Buffer_Writer, andThen, wire.
  rewrite <- Hv.
  destruct (N.ltb_spec 0 (len (fPayload f))) as [_|Hz].
  - now rewrite <- !app_assoc.
  - rewrite (len_nil_inv (fPayload f)) by lia.
    now rewrite <- !app_assoc.
Qed.

(** On a frame within the limit, the buffer receives the wire image with
    the length field [HeaderSize + len payload]. *)
Lemma Encode_layout (b : Buffer) (f : Frame) :
  fVersion f = Version ->
  HeaderSize + len (fPayload f) <= MaxFrameSize ->
  Encode b f = (b ++ wire (HeaderSize + len (fPayload f)) f, None).
Proof.
  intros Hv Hsz.
  assert (E : uint32 (HeaderSize + len (fPayload f))
              = HeaderSize + len (fPayload f)).
  { unfold uint32. apply N.mod_small.
    unfold MaxFrameSize in Hsz. change (2 ^ 32) with 4294967296. lia. }
  rewrite <- E at 1. apply Encode_Buffer; [exact Hv|]. now rewrite E.
Qed.

Lemma wire_length (n : N) (f : Frame) :
  len (wire n f) = 13 + len (fPayload f).
Proof.
  unfold wire, PutUint32, len. rewrite !length_app. cbn [List.length]. lia.
Qed.

Lemma wire_declared (n : N) (f : Frame) :
  n < 2 ^ 32 -> declared (wire n f) = Some n.
Proof.
  intros Hn. unfold wire, PutUint32, declared. cbn [app].
  now rewrite Uint32_PutUint32.
Qed.

Lemma len_repeat (x : byte) (n : N) : len (repeat x (N.to_nat n)) = n.
Proof. unfold len. now rewrite repeat_length, N2Nat.id. Qed.

(** One byte over the limit is refused (TestFrameMaxSize, at the
    boundary). *)
Lemma Encode_too_large_witness :
  fVersion oversizeFrame = Version
  /\ MaxFrameSize < HeaderSize + len (fPayload oversizeFrame)
  /\ HeaderSize + len (fPayload oversizeFrame) < 2 ^ 32
  /\ Encode ([] : Buffer) oversizeFrame
     = ([], Some (protoErr ErrCodeFrameTooLarge "frame too large")).
Proof.
  assert (L : len (fPayload oversizeFrame) = MaxFrameSize - HeaderSize + 1)
    by (unfold oversizeFrame; cbn [fPayload]; apply len_repeat).
  assert (H1 : MaxFrameSize < HeaderSize + len (fPayload oversizeFrame))
    by (rewrite L; reflexivity).
  assert (H2 : HeaderSize + len (fPayload oversizeFrame) < 2 ^ 32)
    by (rewrite L; reflexivity).
  split; [reflexivity|]. split; [exact H1|]. split; [exact H2|].
  exact (Encode_too_large ([] : Buffer) oversizeFrame eq_refl H1 H2).
Defined.

Lemma len_wrapFrame : len (fPayload wrapFrame) = 4294967287.
Proof. unfold wrapFrame. cbn [fPayload]. apply len_repeat. Qed.

(** With 2^32 - 9 payload bytes the sum wraps to 0 in the conversion to
    [uint32], the size check passes, and the whole frame is written with a
    length field of 0. *)
Lemma Encode_wrapFrame :
  Encode ([] : Buffer) wrapFrame = (wire 0 wrapFrame, None).
Proof.
  assert (E : uint32 (HeaderSize + len (fPayload wrapFrame)) = 0).
  { rewrite len_wrapFrame. reflexivity. }
  rewrite Encode_Buffer.
  - rewrite E. reflexivity.
  - reflexivity.
  - rewrite E. discriminate.
Qed.

(** C3, at the input where the code departs from it: the header and the
    payload of [wrapFrame] exceed [MaxFrameSize] and its version is the
    supported one, yet [Encode] reports no error and the sink has received
    the frame. *)
Theorem Encode_accepts_wrapped_size :
  fVersion wrapFrame = Version
  /\ MaxFrameSize < HeaderSize + len (fPayload wrapFrame)
  /\ snd (Encode ([] : Buffer) wrapFrame) = None
  /\ fst (Encode ([] : Buffer) wrapFrame) <> [].
Proof.
  rewrite Encode_wrapFrame, len_wrapFrame. cbn [fst snd].
  repeat split. discriminate.
Qed.

(** C5, at the input where the code departs from it: [Encode] succeeds on
    [wrapFrame], and the length field it has written reads 0, not the 2^32
    bytes that follow it. *)
Theorem Encode_length_field_wraps :
  snd (Encode ([] : Buffer) wrapFrame) = None
  /\ declared (fst (Encode ([] : Buffer) wrapFrame)) = Some 0
  /\ HeaderSize + len (fPayload wrapFrame) = 4294967296.
Proof.
  rewrite Encode_wrapFrame, len_wrapFrame. cbn [fst snd].
  repeat split.
Qed.

(** ** Decode *)

Lemma IsValidFrameType_spec (t : byte) :
  IsValidFrameType t = true <-> In t frameTypes.
Proof.
  unfold IsValidFrameType, frameTypes. cbn [In]. split.
  - intros H. repeat (apply orb_true_iff in H as [H|H]);
      apply Byte.byte_dec_bl in H; subst; tauto.
  - intros [<-|[<-|[<-|[<-|[<-|[]]]]]]; reflexivity.
Qed.

Lemma eqb_neq (a b : byte) : a <> b -> Byte.eqb a b = false.
Proof.
  intros Hab. destruct (Byte.eqb a b) eqn:E; [|reflexivity].
  now apply Byte.byte_dec_bl in E.
Qed.

(** The header checks start with the magic marker: a mismatch in either
    byte is reported whatever the seven bytes after it are. *)
Lemma parseBody_bad_magic (m0 m1 : byte) (tail : list byte) :
  HeaderSize <= len (m0 :: m1 :: tail) ->
  m0 <> Magic0 \/ m1 <> Magic1 ->
  parseBody (m0 :: m1 :: tail)
  = Err (protoErr ErrCodeBadFrame "invalid magic marker").
Proof.
  intros Hlen Hm.
  destruct (body_shape _ Hlen)
    as (m0' & m1' & v & t & fl & s0 & s1 & s2 & s3 & payload & E).
  injection E as <- <- ->. unfold parseBody.
  destruct Hm as [Hm|Hm]; rewrite (eqb_neq _ _ Hm); cbn [negb orb];
    [reflexivity|].
  now rewrite orb_true_r.
Qed.

Lemma parseBody_bad_type (t fl s0 s1 s2 s3 : byte) (payload : list byte) :
  ~ In t frameTypes ->
  parseBody (Magic0 :: Magic1 :: Version :: t :: fl
               :: s0 :: s1 :: s2 :: s3 :: payload)
  = Err (protoErr ErrCodeBadFrame "invalid frame type").
Proof.
  intros Ht. unfold parseBody.
  change (Byte.eqb Magic0 Magic0) with true.
  change (Byte.eqb Magic1 Magic1) with true.
  change (Byte.eqb Version Version) with true.
  cbn [negb orb].
  destruct (IsValidFrameType t) eqn:E; [|reflexivity].
  now apply IsValidFrameType_spec in E.
Qed.

Lemma parseBody_frame (f : Frame) :
  valid f ->
  parseBody ([Magic0; Magic1] ++ [fVersion f; fType f; fFlags f]
               ++ PutUint32 (fStreamID f) ++ fPayload f)
  = Ok f.
Proof.
  intros [Hv Ht Hs _]. unfold PutUint32, parseBody. cbn [app].
  change (Byte.eqb Magic0 Magic0) with true.
  change (Byte.eqb Magic1 Magic1) with true.
  rewrite Hv at 1. change (Byte.eqb Version Version) with true.
  apply IsValidFrameType_spec in Ht. rewrite Ht. cbn [negb orb].
  rewrite (Uint32_PutUint32 _ Hs). now destruct f.
Qed.

(** Decoding the wire image of a valid frame gives the frame back and leaves
    what follows the image unread. *)
Lemma Decode_wire (f : Frame) (rest : list byte) :
  valid f ->
  Decode (wire (HeaderSize + len (fPayload f)) f ++ rest) = (rest, Ok f).
Proof.
  intros Hf. pose proof (valid_size f Hf) as Hsz.
  assert (Hfit : HeaderSize + len (fPayload f) < 2 ^ 32).
  { unfold MaxFrameSize, HeaderSize in *. change (2 ^ 32) with 4294967296. lia. }
  unfold wire. set (body := [Magic0; Magic1] ++ _).
  rewrite <- app_assoc. unfold PutUint32. cbn [app].
  rewrite Decode_complete.
  - subst body. now rewrite parseBody_frame.
  - rewrite Uint32_PutUint32 by exact Hfit.
    unfold MaxFrameSize, HeaderSize in *. lia.
  - rewrite Uint32_PutUint32 by exact Hfit.
    subst body. unfold PutUint32, len, HeaderSize.
    rewrite !length_app. cbn [List.length]. lia.
Qed.

(** C1. Round trip: a valid frame (supported version, one of the five
    types, any flags, any 32-bit stream ID, a payload of 0 up to
    MaxFrameSize - HeaderSize bytes) is encoded without error, and decoding
    the bytes written gives the same frame, field for field, consuming
    exactly those bytes. *)
Theorem Decode_Encode_roundtrip (f : Frame) :
  valid f ->
  exists bs : list byte,
    Encode ([] : Buffer) f = (bs, None)
    /\ Decode bs = ([], Ok f)
    /\ forall rest, Decode (bs ++ rest) = (rest, Ok f).
Proof.
  intros Hf. exists (wire (HeaderSize + len (fPayload f)) f).
  pose proof (valid_size f Hf) as Hsz.
  split; [|split].
  - rewrite Encode_layout; [reflexivity|apply (valid_version f Hf)|].
    unfold MaxFrameSize, HeaderSize in *. lia.
  - rewrite <- (app_nil_r (wire _ f)). now apply Decode_wire.
  - intros rest. now apply Decode_wire.
Qed.

Lemma valid_dataFrame : valid dataFrame.
Proof.
  constructor.
  - reflexivity.
  - unfold frameTypes. simpl. tauto.
  - reflexivity.
  - vm_compute. discriminate.
Defined.

Lemma Decode_Encode_roundtrip_witness :
  valid dataFrame
  /\ exists bs : list byte,
       Encode ([] : Buffer) dataFrame = (bs, None)
       /\ Decode bs = ([], Ok dataFrame)
       /\ forall rest, Decode (bs ++ rest) = (rest, Ok dataFrame).
Proof.
  split; [exact valid_dataFrame|].
  apply (Decode_Encode_roundtrip dataFrame). exact valid_dataFrame.
Defined.

(** The round trip at the two ends of the payload range. *)
Example roundtrip_empty_payload :
  Decode (wire 9 heartbeat) = ([], Ok heartbeat).
Proof. vm_compute. reflexivity. Qed.

Lemma roundtrip_max_payload (p : list byte) (f : Frame) :
  len p = MaxFrameSize - HeaderSize ->
  f = {| fVersion := Version; fType := FrameData; fFlags := FlagNone;
         fStreamID := 1; fPayload := p |} ->
  Encode ([] : Buffer) f = (wire MaxFrameSize f, None)
  /\ Decode (wire MaxFrameSize f) = ([], Ok f).
Proof.
  intros Hlen ->.
  set (f := {| fVersion := Version; fPayload := p |}).
  assert (Hn : HeaderSize + len (fPayload f) = MaxFrameSize)
    by (unfold f; cbn [fPayload]; rewrite Hlen; reflexivity).
  assert (Hf : valid f).
  { constructor; [reflexivity| |reflexivity|].
    - unfold frameTypes, f. cbn [fType In]. tauto.
    - unfold f. cbn [fPayload]. rewrite Hlen. apply N.le_refl. }
  split.
  - rewrite Encode_layout; [now rewrite Hn|reflexivity|].
    rewrite Hn. apply N.le_refl.
  - rewrite <- Hn at 1. rewrite <- (app_nil_r (wire _ f)).
    now apply Decode_wire.
Qed.

Lemma declared_inv (bs : list byte) (n : N) :
  declared bs = Some n ->
  exists b0 b1 b2 b3 rest,
    bs = b0 :: b1 :: b2 :: b3 :: rest /\ n = Uint32 b0 b1 b2 b3.
Proof.
  destruct bs as [|b0 [|b1 [|b2 [|b3 rest]]]]; try discriminate.
  intros [= <-]. now exists b0, b1, b2, b3, rest.
Qed.

(** C2, as the code has it. The declared length is checked before the body
    is read: when it exceeds MaxFrameSize or is below the 9-byte header
    size, [Decode] fails with BadFrame in both cases (not FrameTooLarge),
    having consumed the four bytes of the length field only, and returns no
    frame. *)
Theorem Decode_rejects_bad_size (bs : list byte) (n : N) :
  declared bs = Some n ->
  n < HeaderSize \/ MaxFrameSize < n ->
  Decode bs
  = (skipn 4 bs, Err (protoErr ErrCodeBadFrame "invalid frame size")).
Proof.
  intros Hd Hn.
  destruct (declared_inv bs n Hd) as (b0 & b1 & b2 & b3 & rest & -> & ->).
  rewrite Decode_cons4. cbv zeta.
  now rewrite (size_check_fails _ Hn).
Qed.

Lemma Decode_rejects_bad_size_witness :
  declared oversizeInput = Some (MaxFrameSize + 1)
  /\ Decode oversizeInput
     = ([], Err (protoErr ErrCodeBadFrame "invalid frame size")).
Proof.
  split; [reflexivity|].
  apply (Decode_rejects_bad_size oversizeInput (MaxFrameSize + 1));
    [reflexivity|right; reflexivity].
Defined.

(** C2 as stated fails: on an input that declares MaxFrameSize + 1 bytes,
    the error code is BadFrame, which is not the FrameTooLarge of
    [Encode]'s size rejection. *)
Lemma Decode_oversize_not_FrameTooLarge :
  declared oversizeInput = Some (MaxFrameSize + 1)
  /\ codeOf (snd (Decode oversizeInput)) = Some ErrCodeBadFrame
  /\ codeOf (snd (Decode oversizeInput)) <> Some ErrCodeFrameTooLarge.
Proof. repeat split. vm_compute. discriminate. Qed.

(** C6. On a complete frame with a declared length in range, a magic marker
    that differs from 0x52 0x54 in either byte makes [Decode] fail with
    BadFrame; nothing is assumed about the version, type, flags and stream
    ID bytes that follow the marker, so the marker is checked before any of
    them is looked at. *)
Theorem Decode_rejects_bad_magic
    (l0 l1 l2 l3 m0 m1 : byte) (tail rest : list byte) :
  HeaderSize <= Uint32 l0 l1 l2 l3 <= MaxFrameSize ->
  len (m0 :: m1 :: tail) = Uint32 l0 l1 l2 l3 ->
  m0 <> Magic0 \/ m1 <> Magic1 ->
  Decode (l0 :: l1 :: l2 :: l3 :: (m0 :: m1 :: tail) ++ rest)
  = (rest, Err (protoErr ErrCodeBadFrame "invalid magic marker")).
Proof.
  intros Hn Hlen Hm.
  rewrite (Decode_complete _ _ _ _ _ _ Hn Hlen).
  rewrite parseBody_bad_magic; [reflexivity| |exact Hm].
  rewrite Hlen. apply Hn.
Qed.

(** TestFrameMagicMarker: both marker bytes of an encoded frame set to
    0xFF. *)
Lemma Decode_rejects_bad_magic_witness :
  Decode (setByte (setByte (wire 13 authFrame) 4 xff) 5 xff)
  = ([], Err (protoErr ErrCodeBadFrame "invalid magic marker")).
Proof.
  change (setByte (setByte (wire 13 authFrame) 4 xff) 5 xff)
    with (x00 :: x00 :: x00 :: x0d
            :: (xff :: xff :: skipn 6 (wire 13 authFrame)) ++ []).
  apply Decode_rejects_bad_magic.
  - vm_compute. split; discriminate.
  - reflexivity.
  - left. discriminate.
Defined.

(** Corrupting one byte of the marker of the wire image of a valid frame:
    the image with byte 4 or byte 5 replaced by another value is refused
    with BadFrame. *)
Lemma Decode_corrupted_marker (f : Frame) (i : nat) (b : byte) :
  valid f ->
  (i = 4%nat /\ b <> Magic0) \/ (i = 5%nat /\ b <> Magic1) ->
  snd (Decode (setByte (wire (HeaderSize + len (fPayload f)) f) i b))
  = Err (protoErr ErrCodeBadFrame "invalid magic marker").
Proof.
  intros Hf Hi. pose proof (valid_size f Hf) as Hsz.
  assert (Hfit : HeaderSize + len (fPayload f) < 2 ^ 32).
  { unfold MaxFrameSize, HeaderSize in *. change (2 ^ 32) with 4294967296. lia. }
  assert (Hn : HeaderSize <= HeaderSize + len (fPayload f) <= MaxFrameSize).
  { unfold MaxFrameSize, HeaderSize in *. lia. }
  set (tail := [fVersion f; fType f; fFlags f]
                 ++ PutUint32 (fStreamID f) ++ fPayload f).
  assert (Htail : len tail = 7 + len (fPayload f)).
  { subst tail. unfold PutUint32, len. rewrite !length_app.
    cbn [List.length]. lia. }
  assert (Hgen : forall m0 m1, m0 <> Magic0 \/ m1 <> Magic1 ->
            snd (Decode (PutUint32 (HeaderSize + len (fPayload f))
                           ++ m0 :: m1 :: tail))
            = Err (protoErr ErrCodeBadFrame "invalid magic marker")).
  { intros m0 m1 Hm. unfold PutUint32 at 1. cbn [app].
    rewrite <- (app_nil_r (m0 :: m1 :: tail)).
    rewrite Decode_complete.
    - rewrite parseBody_bad_magic; [reflexivity| |exact Hm].
      unfold len in *. cbn [List.length]. unfold HeaderSize. lia.
    - now rewrite Uint32_PutUint32.
    - rewrite Uint32_PutUint32 by exact Hfit.
      unfold len in *. cbn [List.length]. unfold HeaderSize. lia. }
  destruct Hi as [[-> Hb]|[-> Hb]].
  - apply (Hgen b Magic1). now left.
  - apply (Hgen Magic0 b). now right.
Qed.

(** C7. On a complete frame with a declared length in range, the magic
    marker and the supported version, a type byte that is none of the five
    frame types (0x01 to 0x05) makes [Decode] fail with BadFrame. *)
Theorem Decode_rejects_unknown_type
    (l0 l1 l2 l3 t fl s0 s1 s2 s3 : byte) (payload rest : list byte) :
  HeaderSize <= Uint32 l0 l1 l2 l3 <= MaxFrameSize ->
  HeaderSize + len payload = Uint32 l0 l1 l2 l3 ->
  ~ In t frameTypes ->
  Decode (l0 :: l1 :: l2 :: l3
            :: (Magic0 :: Magic1 :: Version :: t :: fl
                  :: s0 :: s1 :: s2 :: s3 :: payload) ++ rest)
  = (rest, Err (protoErr ErrCodeBadFrame "invalid frame type")).
Proof.
  intros Hn Hlen Ht.
  rewrite Decode_complete.
  - now rewrite parseBody_bad_type.
  - exact Hn.
  - rewrite <- Hlen. unfold len, HeaderSize. cbn [List.length]. lia.
Qed.

Lemma Decode_rejects_unknown_type_witness :
  Decode [x00; x00; x00; x09; Magic0; Magic1; Version; x06; x00;
          x00; x00; x00; x00]
  = ([], Err (protoErr ErrCodeBadFrame "invalid frame type")).
Proof.
  apply (Decode_rejects_unknown_type x00 x00 x00 x09 x06 x00
           x00 x00 x00 x00 [] []).
  - vm_compute. split; discriminate.
  - reflexivity.
  - unfold frameTypes. simpl. intros [H|[H|[H|[H|[H|[]]]]]]; discriminate H.
Defined.

Lemma frameTypes_spec (t : byte) :
  In t frameTypes <-> 1 <= Byte.to_N t <= 5.
Proof.
  unfold frameTypes. cbn [In]. split.
  - intros [<-|[<-|[<-|[<-|[<-|[]]]]]]; vm_compute; split; discriminate.
  - intros [H1 H2]. destruct t; vm_compute in H1, H2;
      try (exfalso; apply H1; reflexivity);
      try (exfalso; apply H2; reflexivity);
      unfold FrameAuth, FrameOpenStream, FrameData, FrameClose, FrameHeartbeat;
      tauto.
Qed.

(** Fewer than four bytes: the read of the length field fails with an
    end-of-input condition. *)
Lemma Decode_short_header (bs : list byte) :
  len bs < 4 ->
  exists e, Decode bs = ([], Err e) /\ end_of_input e = true.
Proof.
  intros H. unfold Decode.
  destruct (binary_Read_short bs H) as (e & -> & He). now exists e.
Qed.

(** A declared length in range and fewer bytes than declared after the
    length field: the read of the body fails with an end-of-input
    condition. *)
Lemma Decode_short_body (bs : list byte) (n : N) :
  declared bs = Some n ->
  HeaderSize <= n <= MaxFrameSize ->
  len bs < 4 + n ->
  exists e, Decode bs = ([], Err e) /\ end_of_input e = true.
Proof.
  intros Hd Hn Hlen.
  destruct (declared_inv bs n Hd) as (b0 & b1 & b2 & b3 & rest & -> & ->).
  rewrite Decode_cons4. cbv zeta. rewrite (size_check_passes _ Hn).
  destruct (ReadFull_short rest (Uint32 b0 b1 b2 b3)) as (e & -> & He).
  - unfold len in *. cbn [List.length] in Hlen. lia.
  - now exists e.
Qed.

Lemma end_of_input_not_ProtocolError (e : error) :
  end_of_input e = true -> IsProtocolError (Some e) = (None, false).
Proof. destruct e; simpl; congruence. Qed.

(** C8, as the code has it. An input of fewer than four bytes, or an input
    whose declared length lies between HeaderSize and MaxFrameSize and
    that is shorter than four bytes plus that length, makes [Decode] fail
    with an end-of-input condition of the source (io.EOF or
    io.ErrUnexpectedEOF), which is not a ProtocolError. *)
Theorem Decode_truncated (bs : list byte) :
  len bs < 4
  \/ (exists n, declared bs = Some n
                /\ HeaderSize <= n <= MaxFrameSize /\ len bs < 4 + n) ->
  exists e,
    Decode bs = ([], Err e)
    /\ end_of_input e = true
    /\ IsProtocolError (Some e) = (None, false).
Proof.
  intros [H|(n & Hd & Hn & Hlen)].
  - destruct (Decode_short_header bs H) as (e & E & He).
    exists e. auto using end_of_input_not_ProtocolError.
  - destruct (Decode_short_body bs n Hd Hn Hlen) as (e & E & He).
    exists e. auto using end_of_input_not_ProtocolError.
Qed.

(** TestFrameDecodeIncomplete: 32 bytes declared, 9 present. *)
Lemma Decode_truncated_witness :
  (exists n, declared incomplete = Some n
             /\ HeaderSize <= n <= MaxFrameSize /\ len incomplete < 4 + n)
  /\ exists e,
       Decode incomplete = ([], Err e)
       /\ end_of_input e = true
       /\ IsProtocolError (Some e) = (None, false).
Proof.
  assert (H : exists n, declared incomplete = Some n
                /\ HeaderSize <= n <= MaxFrameSize /\ len incomplete < 4 + n).
  { exists 32. vm_compute. repeat split; discriminate. }
  split; [exact H|].
  apply (Decode_truncated incomplete). right. exact H.
Defined.

(** C8 as stated fails: an input that is shorter than four bytes plus its
    declared length, but whose declared length is below HeaderSize, is
    refused with the ProtocolError BadFrame, not with an end-of-input
    condition. *)
Lemma Decode_truncated_bad_size :
  declared shortDeclared = Some 5
  /\ len shortDeclared < 4 + 5
  /\ snd (Decode shortDeclared)
     = Err (protoErr ErrCodeBadFrame "invalid frame size")
  /\ end_of_input (protoErr ErrCodeBadFrame "invalid frame size") = false
  /\ snd (IsProtocolError
            (Some (protoErr ErrCodeBadFrame "invalid frame size"))) = true.
Proof. repeat split. Qed.

(** X9. Truncation of the wire image of a valid frame at any point: every
    strict prefix fails with an end-of-input condition. *)
Lemma Decode_truncated_frame (f : Frame) (k : nat) :
  valid f ->
  N.of_nat k < 13 + len (fPayload f) ->
  exists e,
    Decode (firstn k (wire (HeaderSize + len (fPayload f)) f)) = ([], Err e)
    /\ end_of_input e = true.
Proof.
  intros Hf Hk. pose proof (valid_size f Hf) as Hsz.
  set (n := HeaderSize + len (fPayload f)) in *.
  assert (Hlen : len (firstn k (wire n f)) = N.of_nat k).
  { pose proof (wire_length n f) as L. unfold len in *.
    rewrite length_firstn. lia. }
  destruct (Nat.lt_ge_cases k 4) as [Hk4|Hk4].
  - apply Decode_short_header. rewrite Hlen. lia.
  - apply (Decode_short_body _ n).
    + do 4 (destruct k as [|k]; [lia|]).
      unfold wire, PutUint32, declared. cbn [app firstn].
      rewrite Uint32_PutUint32; [reflexivity|].
      subst n. unfold MaxFrameSize, HeaderSize in *.
      change (2 ^ 32) with 4294967296. lia.
    + subst n. unfold MaxFrameSize, HeaderSize in *. lia.
    + rewrite Hlen. subst n. unfold HeaderSize. lia.
Qed.

(** The two end-of-input conditions of TestFrameDecodeEOF and
    TestFrameDecodeIncomplete. *)
Example Decode_empty : Decode [] = ([], Err EOF).
Proof. reflexivity. Qed.

Example Decode_only_length : Decode [x00; x00; x00; x09] = ([], Err EOF).
Proof. reflexivity. Qed.

Example Decode_incomplete : Decode incomplete = ([], Err ErrUnexpectedEOF).
Proof. reflexivity. Qed.

(** ** Frame predicates *)

(** C9. [IsControlFrame] holds exactly when the stream ID is 0,
    [IsDataStream] exactly when it is greater than 0, and for every frame
    exactly one of the two holds. *)
Theorem stream_classification (f : Frame) :
  (IsControlFrame f = true <-> fStreamID f = 0)
  /\ (IsDataStream f = true <-> 0 < fStreamID f)
  /\ IsDataStream f = negb (IsControlFrame f).
Proof.
  unfold IsControlFrame, IsDataStream.
  change StreamIDControl with 0.
  split; [apply N.eqb_eq|]. split; [apply N.ltb_lt|].
  destruct (N.eqb_spec (fStreamID f) 0) as [->|Hne]; [reflexivity|].
  apply N.ltb_lt. lia.
Qed.

(** TestFrameStreamID. *)
Example classification_cases :
  forall sid, In sid [0; 1; 4294967295] ->
  let f := {| fVersion := Version; fType := FrameData; fFlags := FlagNone;
              fStreamID := sid; fPayload := payload_of "test" |} in
  IsControlFrame f = (sid =? 0) /\ IsDataStream f = negb (sid =? 0).
Proof.
  intros sid [<-|[<-|[<-|[]]]]; split; reflexivity.
Qed.

(** C10. [HasFlag] with [FlagNone], that is with 0, is false for every
    frame, also for a frame whose flags byte is 0: it does not test that
    no flag is set. *)
Theorem HasFlag_FlagNone (f : Frame) : HasFlag f FlagNone = false.
Proof.
  unfold HasFlag, and8.
  change (Byte.to_N FlagNone) with 0. now rewrite N.land_0_r.
Qed.

(** TestFrameFlags: the flags are independent bits. *)
Example flag_independence :
  let f := {| fVersion := Version; fType := FrameData;
              fFlags := uint8 (N.lor (Byte.to_N FlagEndStream)
                                     (Byte.to_N FlagAck));
              fStreamID := 1; fPayload := payload_of "test" |} in
  HasFlag f FlagEndStream = true /\ HasFlag f FlagAck = true
  /\ HasFlag f FlagError = false
  /\ IsEndStream f = true /\ IsAck f = true /\ IsError f = false.
Proof. repeat split. Qed.

(** What [Decode] returns is a valid frame. *)
Lemma Decode_valid (r r' : Reader) (f : Frame) :
  Decode r = (r', Ok f) -> valid f.
Proof.
  destruct r as [|b0 [|b1 [|b2 [|b3 rest]]]]; try discriminate.
  rewrite Decode_cons4. cbv zeta.
  destruct ((Uint32 b0 b1 b2 b3 <? HeaderSize)
            || (MaxFrameSize <? Uint32 b0 b1 b2 b3)) eqn:Hsz;
    [discriminate|].
  apply orb_false_elim in Hsz as [Hlo Hhi].
  apply N.ltb_ge in Hlo, Hhi.
  unfold ReadFull. fold (len rest).
  destruct (N.ltb_spec (len rest) (Uint32 b0 b1 b2 b3)) as [|Hlen];
    [discriminate|].
  set (buf := firstn _ rest).
  assert (Hbuf : len buf = Uint32 b0 b1 b2 b3).
  { subst buf. unfold len in *. rewrite length_firstn. lia. }
  destruct (body_shape buf)
    as (m0 & m1 & v & t & fl & s0 & s1 & s2 & s3 & payload & E);
    [rewrite Hbuf; exact Hlo|].
  rewrite E in *. unfold parseBody.
  destruct (negb (Byte.eqb m0 Magic0) || negb (Byte.eqb m1 Magic1));
    [discriminate|].
  destruct (Byte.eqb v Version) eqn:Ev; [|discriminate].
  destruct (IsValidFrameType t) eqn:Et; [|discriminate].
  cbn [negb]. intros [= _ <-].
  constructor; cbn [fVersion fType fStreamID fPayload].
  - now apply Byte.byte_dec_bl.
  - now apply IsValidFrameType_spec.
  - apply Uint32_bound.
  - unfold len in *. cbn [List.length] in Hbuf.
    unfold HeaderSize, MaxFrameSize in *. lia.
Qed.

(** ** More on the byte order *)

Lemma to_N_inj (a b : byte) : Byte.to_N a = Byte.to_N b -> a = b.
Proof.
  intros H. pose proof (Byte.of_to_N a) as Ha.
  rewrite H, Byte.of_to_N in Ha. now injection Ha.
Qed.

(** Bit [j] of a byte moved up by [s] bits. *)
Lemma shl_bit (b : byte) (s j : N) :
  N.testbit (N.shiftl (Byte.to_N b) s) j
  = (s <=? j) && (j - s <? 8) && N.testbit (Byte.to_N b) (j - s).
Proof.
  destruct (N.leb_spec s j) as [Hs|Hs].
  - rewrite N.shiftl_spec_high' by exact Hs.
    destruct (N.ltb_spec (j - s) 8) as [Hj|Hj]; [reflexivity|].
    now rewrite byte_testbit_high.
  - now rewrite N.shiftl_spec_low.
Qed.

(** The byte of [Uint32 b0 b1 b2 b3] that starts at bit [k]. *)
Lemma Uint32_byte (b0 b1 b2 b3 b : byte) (k : N) :
  (k = 24 /\ b = b0) \/ (k = 16 /\ b = b1) \/ (k = 8 /\ b = b2)
  \/ (k = 0 /\ b = b3) ->
  uint8 (N.shiftr (Uint32 b0 b1 b2 b3) k) = b.
Proof.
  intros Hk. apply to_N_inj. rewrite uint8_to_N.
  apply N.bits_inj. intros i.
  destruct (N.lt_ge_cases i 8) as [Hi|Hi].
  - rewrite N.mod_pow2_bits_low by exact Hi.
    rewrite N.shiftr_spec'. unfold Uint32.
    rewrite <- (N.shiftl_0_r (Byte.to_N b3)).
    rewrite !N.lor_spec, !shl_bit.
    destruct Hk as [[-> ->]|[[-> ->]|[[-> ->]|[-> ->]]]];
      repeat match goal with
             | |- context [?a <=? ?c] => destruct (N.leb_spec a c)
             | |- context [?a <? ?c] => destruct (N.ltb_spec a c)
             end; try lia; cbn [andb orb]; rewrite ?orb_false_r;
      f_equal; lia.
  - rewrite N.mod_pow2_bits_high by exact Hi.
    now rewrite byte_testbit_high.
Qed.

(** Four bytes read as a [uint32] and written back are the same four
    bytes. *)
Lemma PutUint32_Uint32 (b0 b1 b2 b3 : byte) :
  PutUint32 (Uint32 b0 b1 b2 b3) = [b0; b1; b2; b3].
Proof.
  unfold PutUint32.
  rewrite (Uint32_byte b0 b1 b2 b3 b0 24) by tauto.
  rewrite (Uint32_byte b0 b1 b2 b3 b1 16) by tauto.
  rewrite (Uint32_byte b0 b1 b2 b3 b2 8) by tauto.
  rewrite <- (N.shiftr_0_r (Uint32 b0 b1 b2 b3)) at 1.
  now rewrite (Uint32_byte b0 b1 b2 b3 b3 0) by tauto.
Qed.

(** ** More on Encode *)

(** X2. Within the limit, [Encode] appends one frame to a buffer and keeps what
    the buffer held: the bytes added are the wire image, 13 bytes longer
    than the payload, and their length field reads the header size plus the
    payload length. *)
Theorem Encode_appends_frame (b : Buffer) (f : Frame) :
  fVersion f = Version ->
  HeaderSize + len (fPayload f) <= MaxFrameSize ->
  let n := HeaderSize + len (fPayload f) in
  Encode b f = (b ++ wire n f, None)
  /\ len (wire n f) = 13 + len (fPayload f)
  /\ declared (wire n f) = Some n.
Proof.
  intros Hv Hsz n. split; [|split].
  - now apply Encode_layout.
  - apply wire_length.
  - apply wire_declared. subst n.
    unfold MaxFrameSize in Hsz. change (2 ^ 32) with 4294967296. lia.
Qed.

Lemma Encode_appends_frame_witness :
  fVersion dataFrame = Version
  /\ HeaderSize + len (fPayload dataFrame) <= MaxFrameSize
  /\ Encode (wire 9 heartbeat) dataFrame
     = (wire 9 heartbeat ++ wire 22 dataFrame, None)
  /\ len (wire 22 dataFrame) = 13 + len (fPayload dataFrame)
  /\ declared (wire 22 dataFrame) = Some 22.
Proof.
  assert (H : HeaderSize + len (fPayload dataFrame) <= MaxFrameSize)
    by (vm_compute; discriminate).
  split; [reflexivity|]. split; [exact H|].
  exact (Encode_appends_frame (wire 9 heartbeat) dataFrame eq_refl H).
Defined.

(** X3. On a [bytes.Buffer], [Encode] is all or nothing: it appends a whole
    frame, or it fails with InvalidVersion or FrameTooLarge and leaves the
    buffer as it was. *)
Theorem Encode_Buffer_outcomes (b : Buffer) (f : Frame) :
  Encode b f
  = (b ++ wire (uint32 (HeaderSize + len (fPayload f))) f, None)
  \/ Encode b f
     = (b, Some (protoErr ErrCodeInvalidVersion "invalid protocol version"))
  \/ Encode b f
     = (b, Some (protoErr ErrCodeFrameTooLarge "frame too large")).
Proof.
  destruct (Byte.eqb (fVersion f) Version) eqn:Ev.
  - apply Byte.byte_dec_bl in Ev.
    destruct (N.le_gt_cases (uint32 (HeaderSize + len (fPayload f)))
                MaxFrameSize) as [Hsz|Hsz].
    + left. now apply Encode_Buffer.
    + right; right. unfold Encode. rewrite Ev.
      change (negb (Byte.eqb Version Version)) with false. cbv iota zeta.
      apply N.ltb_lt in Hsz. now rewrite Hsz.
  - right; left. unfold Encode. now rewrite Ev.
Qed.

(** ** More on Decode *)

(** What [Decode] has consumed for a frame is the wire image of that
    frame. *)
Lemma Decode_Ok_inv (r r' : Reader) (f : Frame) :
  Decode r = (r', Ok f) ->
  r = wire (HeaderSize + len (fPayload f)) f ++ r'.
Proof.
  destruct r as [|b0 [|b1 [|b2 [|b3 rest]]]]; try discriminate.
  rewrite Decode_cons4. cbv zeta.
  destruct ((Uint32 b0 b1 b2 b3 <? HeaderSize)
            || (MaxFrameSize <? Uint32 b0 b1 b2 b3)) eqn:Hsz;
    [discriminate|].
  apply orb_false_elim in Hsz as [Hlo _]. apply N.ltb_ge in Hlo.
  unfold ReadFull. fold (len rest).
  destruct (N.ltb_spec (len rest) (Uint32 b0 b1 b2 b3)) as [|Hlen];
    [discriminate|].
  pose proof (firstn_skipn (N.to_nat (Uint32 b0 b1 b2 b3)) rest) as Hsplit.
  assert (Hbuf : len (firstn (N.to_nat (Uint32 b0 b1 b2 b3)) rest)
                 = Uint32 b0 b1 b2 b3).
  { unfold len in *. rewrite length_firstn. lia. }
  revert Hsplit Hbuf.
  generalize (firstn (N.to_nat (Uint32 b0 b1 b2 b3)) rest) as buf.
  generalize (skipn (N.to_nat (Uint32 b0 b1 b2 b3)) rest) as tl.
  intros tl buf Hsplit Hbuf. subst rest.
  destruct (body_shape buf)
    as (m0 & m1 & v & t & fl & s0 & s1 & s2 & s3 & payload & ->);
    [rewrite Hbuf; exact Hlo|].
  unfold parseBody.
  destruct (Byte.eqb m0 Magic0) eqn:E0; [|discriminate].
  destruct (Byte.eqb m1 Magic1) eqn:E1; [|discriminate].
  destruct (Byte.eqb v Version); [|discriminate].
  destruct (IsValidFrameType t); [|discriminate].
  cbn [negb orb]. intros [= <- <-].
  apply Byte.byte_dec_bl in E0, E1. subst m0 m1.
  unfold wire. cbn [fVersion fType fFlags fStreamID fPayload].
  assert (Hn : HeaderSize + len payload = Uint32 b0 b1 b2 b3).
  { rewrite <- Hbuf. unfold len, HeaderSize. cbn [List.length]. lia. }
  rewrite Hn, !PutUint32_Uint32. reflexivity.
Qed.

(** X4. [Decode] succeeds exactly on the inputs that start with the wire image
    of a valid frame: it returns that frame and leaves the rest unread. In
    particular the frame it returns has the supported version, one of the
    five types and a payload within the limit, and encoding it again gives
    back the bytes consumed. *)
Theorem Decode_Ok_iff (r r' : Reader) (f : Frame) :
  Decode r = (r', Ok f)
  <-> valid f /\ r = wire (HeaderSize + len (fPayload f)) f ++ r'.
Proof.
  split.
  - intros H. split; [exact (Decode_valid r r' f H)|].
    now apply Decode_Ok_inv.
  - intros [Hf ->]. now apply Decode_wire.
Qed.



(** X6. [Decode] reports io.EOF in two cases only: on an empty input, and on an
    input that consists of a length field with a value in range and nothing
    after it. Every other truncation is io.ErrUnexpectedEOF. *)
Theorem Decode_EOF_iff (bs : list byte) :
  snd (Decode bs) = Err EOF
  <-> bs = []
      \/ (len bs = 4
          /\ exists n, declared bs = Some n
                       /\ HeaderSize <= n <= MaxFrameSize).
Proof.
  split.
  - destruct bs as [|b0 [|b1 [|b2 [|b3 rest]]]];
      [tauto|discriminate|discriminate|discriminate|].
    rewrite Decode_cons4. cbv zeta.
    destruct ((Uint32 b0 b1 b2 b3 <? HeaderSize)
              || (MaxFrameSize <? Uint32 b0 b1 b2 b3)) eqn:Hsz;
      [discriminate|].
    apply orb_false_elim in Hsz as [Hlo Hhi]. apply N.ltb_ge in Hlo, Hhi.
    unfold ReadFull. fold (len rest).
    destruct (N.ltb_spec (len rest) (Uint32 b0 b1 b2 b3)) as [Hlen|Hlen].
    + destruct rest; [|discriminate]. intros _. right.
      split; [reflexivity|]. exists (Uint32 b0 b1 b2 b3). now split.
    + cbn [snd].
      destruct (body_shape (firstn (N.to_nat (Uint32 b0 b1 b2 b3)) rest))
        as (m0 & m1 & v & t & fl & s0 & s1 & s2 & s3 & payload & ->).
      { unfold len in *. rewrite length_firstn. lia. }
      unfold parseBody.
      repeat match goal with
             | |- context [if ?c then _ else _] => destruct c
             end; discriminate.
  - intros [->|(Hlen & n & Hd & Hn)]; [reflexivity|].
    destruct (declared_inv bs n Hd) as (b0 & b1 & b2 & b3 & rest & -> & ->).
    destruct rest; [|unfold len in Hlen; simpl in Hlen; lia].
    rewrite Decode_cons4. cbv zeta. rewrite (size_check_passes _ Hn).
    unfold ReadFull. cbn [List.length N.of_nat].
    destruct (N.ltb_spec 0 (Uint32 b0 b1 b2 b3)) as [|H0]; [reflexivity|].
    unfold HeaderSize in Hn. lia.
Qed.

(** X7. A version byte other than the supported one, behind a correct magic
    marker, makes [Decode] fail with InvalidVersion; the type byte is not
    looked at before. *)
Theorem Decode_rejects_version
    (l0 l1 l2 l3 v t fl s0 s1 s2 s3 : byte) (payload rest : list byte) :
  HeaderSize <= Uint32 l0 l1 l2 l3 <= MaxFrameSize ->
  HeaderSize + len payload = Uint32 l0 l1 l2 l3 ->
  v <> Version ->
  Decode (l0 :: l1 :: l2 :: l3
            :: (Magic0 :: Magic1 :: v :: t :: fl
                  :: s0 :: s1 :: s2 :: s3 :: payload) ++ rest)
  = (rest,
     Err (protoErr ErrCodeInvalidVersion "invalid protocol version")).
Proof.
  intros Hn Hlen Hv.
  rewrite Decode_complete.
  - unfold parseBody.
    change (Byte.eqb Magic0 Magic0) with true.
    change (Byte.eqb Magic1 Magic1) with true.
    now rewrite (eqb_neq _ _ Hv).
  - exact Hn.
  - rewrite <- Hlen. unfold len, HeaderSize. cbn [List.length]. lia.
Qed.

(** TestFrameVersionValidation: the version byte of an encoded frame set to
    0xFF. *)
Lemma Decode_rejects_version_witness :
  xff <> Version
  /\ Decode badVersionInput
     = ([], Err (protoErr ErrCodeInvalidVersion "invalid protocol version")).
Proof.
  split; [discriminate|].
  change badVersionInput
    with (x00 :: x00 :: x00 :: x0d
            :: (Magic0 :: Magic1 :: xff :: FrameAuth :: FlagNone
                  :: x00 :: x00 :: x00 :: x00 :: payload_of "test") ++ []).
  apply Decode_rejects_version.
  - vm_compute. split; discriminate.
  - reflexivity.
  - discriminate.
Defined.

(** X8. Two frames encoded one after the other into a buffer are decoded one
    after the other: the first [Decode] stops at the end of the first
    frame, the second returns the second frame and leaves nothing. *)
Theorem Decode_two_frames (f1 f2 : Frame) :
  valid f1 -> valid f2 ->
  exists (b1 b2 : Buffer) (r : Reader),
    Encode ([] : Buffer) f1 = (b1, None)
    /\ Encode b1 f2 = (b2, None)
    /\ Decode b2 = (r, Ok f1)
    /\ Decode r = ([], Ok f2).
Proof.
  intros H1 H2.
  assert (S1 : HeaderSize + len (fPayload f1) <= MaxFrameSize).
  { pose proof (valid_size f1 H1). unfold MaxFrameSize, HeaderSize in *. lia. }
  assert (S2 : HeaderSize + len (fPayload f2) <= MaxFrameSize).
  { pose proof (valid_size f2 H2). unfold MaxFrameSize, HeaderSize in *. lia. }
  exists (wire (HeaderSize + len (fPayload f1)) f1).
  exists (wire (HeaderSize + len (fPayload f1)) f1
            ++ wire (HeaderSize + len (fPayload f2)) f2).
  exists (wire (HeaderSize + len (fPayload f2)) f2).
  repeat split.
  - rewrite (Encode_layout [] f1 (valid_version f1 H1) S1). reflexivity.
  - now rewrite (Encode_layout _ f2 (valid_version f2 H2) S2).
  - now apply Decode_wire.
  - rewrite <- (app_nil_r (wire _ f2)). now apply Decode_wire.
Qed.

Lemma valid_heartbeat : valid heartbeat.
Proof.
  constructor.
  - reflexivity.
  - unfold frameTypes. simpl. tauto.
  - reflexivity.
  - vm_compute. discriminate.
Defined.

Lemma Decode_two_frames_witness :
  valid heartbeat /\ valid dataFrame
  /\ exists (b1 b2 : Buffer) (r : Reader),
       Encode ([] : Buffer) heartbeat = (b1, None)
       /\ Encode b1 dataFrame = (b2, None)
       /\ Decode b2 = (r, Ok heartbeat)
       /\ Decode r = ([], Ok dataFrame).
Proof.
  split; [exact valid_heartbeat|]. split; [exact valid_dataFrame|].
  exact (Decode_two_frames heartbeat dataFrame valid_heartbeat valid_dataFrame).
Defined.

(** The wire image of [dataFrame] cut after 20 of its 26 bytes. *)
Lemma Decode_truncated_frame_witness :
  valid dataFrame
  /\ N.of_nat 20 < 13 + len (fPayload dataFrame)
  /\ exists e,
       Decode (firstn 20 (wire (HeaderSize + len (fPayload dataFrame))
                            dataFrame))
       = ([], Err e)
       /\ end_of_input e = true.
Proof.
  assert (H : N.of_nat 20 < 13 + len (fPayload dataFrame)) by reflexivity.
  split; [exact valid_dataFrame|]. split; [exact H|].
  exact (Decode_truncated_frame dataFrame 20 valid_dataFrame H).
Defined.

(** ** More on the frame predicates *)

Lemma low_bits_small (n : N) :
  (forall i, 8 <= i -> N.testbit n i = false) -> n mod 2 ^ 8 = n.
Proof.
  intros H. apply N.bits_inj. intros i.
  destruct (N.lt_ge_cases i 8) as [Hi|Hi].
  - now apply N.mod_pow2_bits_low.
  - rewrite N.mod_pow2_bits_high by exact Hi. symmetry. now apply H.
Qed.

Lemma and8_to_N (a b : byte) :
  Byte.to_N (and8 a b) = N.land (Byte.to_N a) (Byte.to_N b).
Proof.
  unfold and8. rewrite uint8_to_N. apply low_bits_small.
  intros i Hi. now rewrite N.land_spec, byte_testbit_high.
Qed.

Lemma or8_to_N (a b : byte) :
  Byte.to_N (or8 a b) = N.lor (Byte.to_N a) (Byte.to_N b).
Proof.
  unfold or8. rewrite uint8_to_N. apply low_bits_small.
  intros i Hi. now rewrite N.lor_spec, !byte_testbit_high.
Qed.

Lemma eqb_x00 (b : byte) : Byte.eqb b x00 = (Byte.to_N b =? 0).
Proof. destruct b; reflexivity. Qed.

(** [HasFlag] in terms of the numbers: the bitwise AND of the flags byte
    and the mask is not 0. *)
Lemma HasFlag_land (f : Frame) (flag : byte) :
  HasFlag f flag
  = negb (N.land (Byte.to_N (fFlags f)) (Byte.to_N flag) =? 0).
Proof. unfold HasFlag. now rewrite eqb_x00, and8_to_N. Qed.

(** X10. [HasFlag] with a mask of several flags asks whether any of them is set,
    not whether all are; and a flags byte built with [|] has a flag when
    one of its parts has it. *)
Theorem HasFlag_union (f : Frame) (a b x y : byte) :
  HasFlag f (or8 x y) = HasFlag f x || HasFlag f y
  /\ HasFlag {| fVersion := fVersion f; fType := fType f;
                fFlags := or8 a b; fStreamID := fStreamID f;
                fPayload := fPayload f |} x
     = HasFlag {| fVersion := fVersion f; fType := fType f;
                  fFlags := a; fStreamID := fStreamID f;
                  fPayload := fPayload f |} x
       || HasFlag {| fVersion := fVersion f; fType := fType f;
                     fFlags := b; fStreamID := fStreamID f;
                     fPayload := fPayload f |} x.
Proof.
  assert (L : forall p q, negb (N.lor p q =? 0)
                          = negb (p =? 0) || negb (q =? 0)).
  { intros p q.
    destruct (N.eqb_spec (N.lor p q) 0) as [E|E].
    - apply N.lor_eq_0_iff in E as [-> ->]. reflexivity.
    - destruct (N.eqb_spec p 0) as [->|Hp]; [|reflexivity].
      destruct (N.eqb_spec q 0) as [->|Hq]; [|reflexivity].
      now rewrite N.lor_0_l in E. }
  rewrite !HasFlag_land. cbn [fFlags]. rewrite !or8_to_N. split.
  - now rewrite N.land_lor_distr_r, L.
  - now rewrite N.land_lor_distr_l, L.
Qed.

(** X11. The named helpers read one bit each of the flags byte: bit 0 for
    EndStream, bit 1 for Ack, bit 2 for Error; the other five bits do not
    matter to them. *)
Theorem flag_helpers_bits (f : Frame) :
  IsEndStream f = N.testbit (Byte.to_N (fFlags f)) 0
  /\ IsAck f = N.testbit (Byte.to_N (fFlags f)) 1
  /\ IsError f = N.testbit (Byte.to_N (fFlags f)) 2.
Proof.
  unfold IsEndStream, IsAck, IsError, HasFlag.
  destruct (fFlags f); repeat split.
Qed.

(** X12. [IsValidFrameType] accepts the byte values 1 to 5 and no other. *)
Theorem IsValidFrameType_range (t : byte) :
  IsValidFrameType t = true <-> 1 <= Byte.to_N t <= 5.
Proof. rewrite IsValidFrameType_spec. apply frameTypes_spec. Qed.

(** ** The text of an error *)

Lemma append_inj_l (p a b : string) :
  String.append p a = String.append p b -> a = b.
Proof.
  induction p as [|c p IH]; simpl; intros H; [exact H|].
  injection H as H. now apply IH.
Qed.

(** A run of decimal digits ends at the first closing parenthesis. *)
Lemma digits_then_paren (d1 d2 : Decimal.uint) (t1 t2 : string) :
  String.append (NilEmpty.string_of_uint d1) (String ")"%char t1)
  = String.append (NilEmpty.string_of_uint d2) (String ")"%char t2) ->
  d1 = d2 /\ t1 = t2.
Proof.
  revert d2.
  induction d1 as [|d1 IH|d1 IH|d1 IH|d1 IH|d1 IH|d1 IH|d1 IH|d1 IH|d1 IH|d1 IH];
    intros [|d2|d2|d2|d2|d2|d2|d2|d2|d2|d2]; simpl; intros H;
    try discriminate H;
    injection H as H;
    try (destruct (IH _ H) as [-> ->]); auto.
Qed.

(** X13. The text of a protocol error determines the error: two errors print
    alike only when they have the same code and the same message. *)
Theorem Error_injective (e1 e2 : ProtocolError) :
  Error e1 = Error e2 <-> e1 = e2.
Proof.
  split; [|now intros ->].
  destruct e1 as [c1 m1], e2 as [c2 m2]. unfold Error, decimal.
  cbn [Code Msg]. intros H.
  assert (K : forall t1 t2,
             String.append (NilEmpty.string_of_uint (N.to_uint c1))
               (String ")"%char t1)
             = String.append (NilEmpty.string_of_uint (N.to_uint c2))
                 (String ")"%char t2) ->
             c1 = c2 /\ t1 = t2).
  { intros t1 t2 E. destruct (digits_then_paren _ _ _ _ E) as [Ed Et].
    split; [now apply Unsigned.to_uint_inj|exact Et]. }
  destruct m1 as [|a1 m1], m2 as [|a2 m2]; cbn [String.eqb] in H;
    apply append_inj_l in H; apply K in H as [-> Ht];
    try discriminate Ht; [reflexivity|].
  now injection Ht as -> ->.
Qed.

(** ** The earlier revision and the current one *)

Lemma Legacy_Decode_cons4 (b0 b1 b2 b3 : byte) (rest : list byte) :
  Legacy.Decode (b0 :: b1 :: b2 :: b3 :: rest) =
  let length := Uint32 b0 b1 b2 b3 in
  if (length <? 3) || (MaxFrameSize <? length) then
    (rest, Err (protoErr ErrCodeFrameTooLarge "frame too large"))
  else
    match ReadFull rest length with
    | (r2, Err e) => (r2, Err e)
    | (r2, Panic) => (r2, Panic)
    | (r2, Ok buf) =>
        (r2,
         match buf with
         | v :: t :: fl :: payload =>
             if negb (Byte.eqb v Version) then
               Err (protoErr ErrCodeInvalidVersion "invalid protocol version")
             else
               Ok {| Legacy.fVersion := v; Legacy.fType := t;
                     Legacy.fFlags := fl; Legacy.fPayload := payload |}
         | _ => Panic
         end)
    end.
Proof. unfold Legacy.Decode. rewrite binary_Read_cons4. reflexivity. Qed.

Lemma Legacy_size_check (n : N) :
  3 <= n <= MaxFrameSize -> (n <? 3) || (MaxFrameSize <? n) = false.
Proof.
  intros [H1 H2].
  destruct (N.ltb_spec n 3), (N.ltb_spec MaxFrameSize n);
    try reflexivity; lia.
Qed.

Lemma Legacy_Encode_layout (b : Buffer) (f : Legacy.Frame) :
  Legacy.valid f -> Legacy.Encode b f = (b ++ Legacy.wire f, None).
Proof.
  intros [Hv Hsz]. unfold Legacy.Encode.
  rewrite Hv. change (negb (Byte.eqb Version Version)) with false.
  cbv iota zeta. unfold uint32.
  rewrite N.mod_small
    by (unfold MaxFrameSize in Hsz; change (2 ^ 32) with 4294967296; lia).
  destruct (N.ltb_spec MaxFrameSize (3 + len (Legacy.fPayload f)))
    as [Hgt|_]; [unfold MaxFrameSize in *; lia|].
  unfold binary_Write, Write, Buffer_Writer, andThen, Legacy.wire.
  rewrite <- Hv.
  destruct (N.ltb_spec 0 (len (Legacy.fPayload f))) as [_|Hz].
  - now rewrite <- !app_assoc.
  - rewrite (len_nil_inv (Legacy.fPayload f)) by lia.
    now rewrite <- !app_assoc.
Qed.

(** X14. Round trip of the earlier revision: a frame with the supported version
    and a payload of at most MaxFrameSize - 3 bytes, whatever its type and
    flags bytes, is encoded without error and decoded to the same frame,
    the bytes after it left unread. The type byte is not validated. *)
Theorem Legacy_roundtrip (f : Legacy.Frame) (rest : list byte) :
  Legacy.valid f ->
  Legacy.Encode ([] : Buffer) f = (Legacy.wire f, None)
  /\ Legacy.Decode (Legacy.wire f ++ rest) = (rest, Ok f).
Proof.
  intros Hf. split; [now rewrite Legacy_Encode_layout|].
  destruct Hf as [Hv Hsz].
  assert (Hfit : 3 + len (Legacy.fPayload f) < 2 ^ 32).
  { unfold MaxFrameSize in Hsz. change (2 ^ 32) with 4294967296. lia. }
  unfold Legacy.wire. set (body := [Legacy.fVersion f; _; _] ++ _).
  rewrite <- app_assoc. unfold PutUint32. cbn [app].
  rewrite Legacy_Decode_cons4. cbv zeta.
  rewrite Uint32_PutUint32 by exact Hfit.
  rewrite Legacy_size_check by (unfold MaxFrameSize in *; lia).
  rewrite (ReadFull_exact body rest).
  - subst body. cbn [app]. rewrite Hv at 1.
    change (negb (Byte.eqb Version Version)) with false. cbv iota.
    now destruct f.
  - subst body. unfold len. rewrite length_app. cbn [List.length]. lia.
Qed.

Lemma Legacy_valid_dataFrame : Legacy.valid Legacy.dataFrame.
Proof. constructor; [reflexivity|vm_compute; discriminate]. Defined.

Lemma Legacy_roundtrip_witness :
  Legacy.valid Legacy.dataFrame
  /\ Legacy.Encode ([] : Buffer) Legacy.dataFrame
     = (Legacy.wire Legacy.dataFrame, None)
  /\ Legacy.Decode (Legacy.wire Legacy.dataFrame ++ [])
     = ([], Ok Legacy.dataFrame).
Proof.
  split; [exact Legacy_valid_dataFrame|].
  exact (Legacy_roundtrip Legacy.dataFrame [] Legacy_valid_dataFrame).
Defined.

(** X15. The earlier revision refuses a declared length below 3 or above
    MaxFrameSize with FrameTooLarge, where the current one uses BadFrame;
    like the current one it does so before it reads the body. *)
Theorem Legacy_Decode_rejects_bad_size (bs : list byte) (n : N) :
  declared bs = Some n ->
  n < 3 \/ MaxFrameSize < n ->
  Legacy.Decode bs
  = (skipn 4 bs, Err (protoErr ErrCodeFrameTooLarge "frame too large")).
Proof.
  intros Hd Hn.
  destruct (declared_inv bs n Hd) as (b0 & b1 & b2 & b3 & rest & -> & ->).
  rewrite Legacy_Decode_cons4. cbv zeta.
  destruct (N.ltb_spec (Uint32 b0 b1 b2 b3) 3),
           (N.ltb_spec MaxFrameSize (Uint32 b0 b1 b2 b3));
    try reflexivity; lia.
Qed.

Lemma Legacy_Decode_rejects_bad_size_witness :
  declared oversizeInput = Some (MaxFrameSize + 1)
  /\ Legacy.Decode oversizeInput
     = ([], Err (protoErr ErrCodeFrameTooLarge "frame too large")).
Proof.
  split; [reflexivity|].
  apply (Legacy_Decode_rejects_bad_size oversizeInput (MaxFrameSize + 1));
    [reflexivity|right; reflexivity].
Defined.



(** X17. The earlier revision's [Decode] refuses every frame written by the
    current [Encode] with InvalidVersion: it reads the first byte of the
    magic marker as the version. *)
Theorem Legacy_Decode_rejects_current_frame (f : Frame) (rest : list byte) :
  valid f ->
  Legacy.Decode (wire (HeaderSize + len (fPayload f)) f ++ rest)
  = (rest, Err (protoErr ErrCodeInvalidVersion "invalid protocol version")).
Proof.
  intros Hf. pose proof (valid_size f Hf) as Hsz.
  assert (Hfit : HeaderSize + len (fPayload f) < 2 ^ 32).
  { unfold MaxFrameSize, HeaderSize in *. change (2 ^ 32) with 4294967296. lia. }
  unfold wire. set (body := [Magic0; Magic1] ++ _).
  rewrite <- app_assoc. unfold PutUint32. cbn [app].
  rewrite Legacy_Decode_cons4. cbv zeta.
  rewrite Uint32_PutUint32 by exact Hfit.
  rewrite Legacy_size_check by (unfold MaxFrameSize, HeaderSize in *; lia).
  rewrite (ReadFull_exact body rest).
  - subst body. reflexivity.
  - subst body. unfold PutUint32, len, HeaderSize.
    rewrite !length_app. cbn [List.length]. lia.
Qed.

Lemma Legacy_Decode_rejects_current_frame_witness :
  valid dataFrame
  /\ Legacy.Decode (wire (HeaderSize + len (fPayload dataFrame)) dataFrame
                      ++ [])
     = ([], Err (protoErr ErrCodeInvalidVersion "invalid protocol version")).
Proof.
  split; [exact valid_dataFrame|].
  exact (Legacy_Decode_rejects_current_frame dataFrame [] valid_dataFrame).
Defined.
